(** * BinarySpec.h: the non-blocking socket helper and the two fcntl wrappers

    The header [Sources/BinarySpec.h] holds three [static inline] C
    functions whose whole behaviour is the sequence of system calls they
    issue.  They are embedded here as programs over a small monad of system
    calls ([prog]); a program is run against an operating system ([OS]),
    which answers every call with an [int] and a new state.  Facts about the
    calls a function makes and the value it returns are stated for every
    operating system; facts about descriptors (which ones are open, their
    status flags) are stated for [posix], a model of the descriptor table
    with scripted faults.

    A C [int] is a [Z]: the functions compare ints with 0 and combine two
    of them with [|], which is [Z.lor] on two's complement numbers (so
    [O_NONBLOCK | -1] is [-1]); they do no arithmetic that could wrap. *)

From stdpp Require Import gmap list.
From Stdlib Require Import ZArith Lia.

Open Scope Z_scope.

(** ** The platform headers

    [<fcntl.h>] and [<sys/socket.h>] are not part of the repository: their
    constants are parameters.  The only property of them that is used is that
    the two fcntl commands are different numbers. *)
Class Platform : Type := {
  F_GETFL : Z;
  F_SETFL : Z;
  O_NONBLOCK : Z;
  O_RDWR : Z;
  SOL_SOCKET : Z;
  SO_REUSEADDR : Z;
  SO_NOSIGPIPE : Z;
  sizeof_int : Z;
  F_GETFL_SETFL : F_GETFL ≠ F_SETFL
}.

(** The values of the Darwin SDK, the platform of [Foundation.h] and of
    [SO_NOSIGPIPE]. *)
Definition darwin : Platform := {|
  F_GETFL := 3;
  F_SETFL := 4;
  O_NONBLOCK := 4;
  O_RDWR := 2;
  SOL_SOCKET := 65535;
  SO_REUSEADDR := 4;
  SO_NOSIGPIPE := 4130;
  sizeof_int := 4;
  F_GETFL_SETFL := ltac:(discriminate)
|}.

(** ** System calls and programs *)

(** The calls the header makes.  [fcntl] is variadic: [args] are the
    arguments after the command.  For [setsockopt], [optval] is the [int]
    the pointer argument points to. *)
Inductive syscall : Type :=
  | Socket (domain type protocol : Z)
  | Fcntl (fd cmd : Z) (args : list Z)
  | Close (fd : Z)
  | Setsockopt (fd level optname optval optlen : Z).

(** A C function body: it returns, or makes a call and goes on with the
    [int] the call returned. *)
Inductive prog (A : Type) : Type :=
  | Ret (a : A)
  | Call (c : syscall) (k : Z → prog A).

Arguments Ret {A} a.
Arguments Call {A} c k.

Fixpoint prog_bind {A B : Type} (m : prog A) (f : A → prog B) : prog B :=
  match m with
  | Ret a => f a
  | Call c k => Call c (λ r, prog_bind (k r) f)
  end.

#[global] Instance prog_ret : MRet prog := @Ret.
#[global] Instance prog_mbind : MBind prog := λ A B f m, prog_bind m f.

Definition socket (domain type protocol : Z) : prog Z :=
  Call (Socket domain type protocol) Ret.
Definition fcntl (fd cmd : Z) (args : list Z) : prog Z :=
  Call (Fcntl fd cmd args) Ret.
Definition close (fd : Z) : prog Z :=
  Call (Close fd) Ret.
Definition setsockopt (fd level optname optval optlen : Z) : prog Z :=
  Call (Setsockopt fd level optname optval optlen) Ret.

(** ** The three functions of BinarySpec.h *)

Section Header.
Context `{Platform}.

(** [static inline int BinarySpec_createNonBlockingSocket(int family, int type)].
    The inner [fcntl(sck, F_GETFL)] is an argument of the outer call, so
    it runs first; its result is not tested. *)
Definition BinarySpec_createNonBlockingSocket (family type : Z) : prog Z :=
  sck ← socket family type 0;
  if sck <? 0 then mret (-1) else
  flags ← fcntl sck F_GETFL [];
  res ← fcntl sck F_SETFL [Z.lor O_NONBLOCK flags];
  if res <? 0 then
    _ ← close sck;
    mret (-1)
  else
    let yes := 1 in
    _ ← setsockopt sck SOL_SOCKET SO_REUSEADDR yes sizeof_int;
    _ ← setsockopt sck SOL_SOCKET SO_NOSIGPIPE yes sizeof_int;
    mret sck.

(** [static inline int fcntl0(int fd, int option)] *)
Definition fcntl0 (fd option : Z) : prog Z :=
  fcntl fd option [].

(** [static inline int fcntl1(int fd, int option, int value)] *)
Definition fcntl1 (fd option value : Z) : prog Z :=
  fcntl fd option [value].
End Header.

(** ** Running a program *)

(** An operating system answers a call with the [int] it returns and its
    next state. *)
Record OS : Type := {
  os_state : Type;
  os_call : syscall → os_state → Z * os_state
}.

(** One executed call with the value it returned. *)
Definition event : Type := syscall * Z.

Record outcome (A S : Type) : Type := Outcome {
  result : A;
  final : S;
  trace : list event
}.

Arguments Outcome {A S} result final trace.
Arguments result {A S} o.
Arguments final {A S} o.
Arguments trace {A S} o.

Fixpoint exec {A : Type} (os : OS) (p : prog A) (w : os_state os)
  : outcome A (os_state os) :=
  match p with
  | Ret a => Outcome a w []
  | Call c k =>
      let rw := os_call os c w in
      let o := exec os (k rw.1) rw.2 in
      Outcome (result o) (final o) ((c, rw.1) :: trace o)
  end.

Definition calls (tr : list event) : list syscall := tr.*1.

Definition is_close (c : syscall) : bool :=
  match c with Close _ => true | _ => false end.

(** ** A model of the descriptor table

    [posix] keeps the table of open descriptors, [errno], and a script of
    faults.  Every call consumes one entry of the script: [Some e] makes the
    call fail with error [e] (so any call can be made to fail, whatever the
    table holds), [None] or an exhausted script lets it behave normally. *)

(** An open descriptor: what it was created with, its file status flags and
    the socket options set on it. *)
Record sock : Type := Sock {
  so_domain : Z;
  so_type : Z;
  so_protocol : Z;
  so_flags : Z;
  so_opts : gmap (Z * Z) Z
}.

Record world : Type := World {
  fds : gmap Z sock;
  errno : Z;
  faults : list (option Z)
}.

Definition EBADF : Z := 9.
Definition EINVAL : Z := 22.

(** The lowest descriptor number at or above [k] that is not open, looking
    at no more than [fuel] open ones. *)
Fixpoint first_free (open : gset Z) (fuel : nat) (k : Z) : Z :=
  match fuel with
  | O => k
  | S n => if decide (k ∈ open) then first_free open n (k + 1) else k
  end.

(** POSIX allocates the lowest-numbered descriptor that is not open. *)
Definition lowest_unused (t : gmap Z sock) : Z :=
  first_free (dom t) (size (dom t)) 0.

Definition next_fault (w : world) : option Z * world :=
  match faults w with
  | [] => (None, w)
  | f :: fs => (f, World (fds w) (errno w) fs)
  end.

Definition fail (e : Z) (w : world) : Z * world :=
  (-1, World (fds w) e (faults w)).

Definition set_fds (t : gmap Z sock) (w : world) : world :=
  World t (errno w) (faults w).

Definition with_flags (v : Z) (s : sock) : sock :=
  Sock (so_domain s) (so_type s) (so_protocol s) v (so_opts s).

Definition with_opt (level optname optval : Z) (s : sock) : sock :=
  Sock (so_domain s) (so_type s) (so_protocol s) (so_flags s)
       (<[(level, optname) := optval]> (so_opts s)).

Section Posix.
Context `{Platform}.

(** A new socket is open for reading and writing, with no option set. *)
Definition new_sock (domain type protocol : Z) : sock :=
  Sock domain type protocol O_RDWR ∅.

Definition sys_socket (domain type protocol : Z) (w : world) : Z * world :=
  let fd := lowest_unused (fds w) in
  (fd, set_fds (<[fd := new_sock domain type protocol]> (fds w)) w).

(** [F_GETFL] returns the status flags; [F_SETFL] replaces them by its
    argument and returns 0.  Other commands are not modelled. *)
Definition sys_fcntl (fd cmd : Z) (args : list Z) (w : world) : Z * world :=
  match fds w !! fd with
  | None => fail EBADF w
  | Some s =>
      if decide (cmd = F_GETFL) then (so_flags s, w)
      else if decide (cmd = F_SETFL) then
        match args with
        | v :: _ => (0, set_fds (<[fd := with_flags v s]> (fds w)) w)
        | [] => fail EINVAL w
        end
      else fail EINVAL w
  end.

Definition sys_setsockopt (fd level optname optval optlen : Z) (w : world)
  : Z * world :=
  match fds w !! fd with
  | None => fail EBADF w
  | Some s =>
      (0, set_fds (<[fd := with_opt level optname optval s]> (fds w)) w)
  end.

(** [close] releases an open descriptor even when it reports an error
    (the behaviour of Darwin and Linux for [EINTR] and [EIO]). *)
Definition sys_close (fault : option Z) (fd : Z) (w : world) : Z * world :=
  match fds w !! fd with
  | None => fail EBADF w
  | Some _ =>
      let w' := set_fds (delete fd (fds w)) w in
      match fault with
      | Some e => fail e w'
      | None => (0, w')
      end
  end.

Definition posix_call (c : syscall) (w : world) : Z * world :=
  let '(fault, w) := next_fault w in
  match c, fault with
  | Close fd, _ => sys_close fault fd w
  | _, Some e => fail e w
  | Socket domain type protocol, None => sys_socket domain type protocol w
  | Fcntl fd cmd args, None => sys_fcntl fd cmd args w
  | Setsockopt fd level optname optval optlen, None =>
      sys_setsockopt fd level optname optval optlen w
  end.

Definition posix : OS := {| os_state := world; os_call := posix_call |}.

(** The function under study, run on the model. *)
Definition create (family type : Z) (w : world) : outcome Z world :=
  exec posix (BinarySpec_createNonBlockingSocket family type) w.
End Posix.

(** ** Concrete states used in the examples *)

Definition AF_INET : Z := 2.
Definition SOCK_STREAM : Z := 1.

(** A process with standard input, output and error open. *)
Definition stdio : gmap Z sock :=
  <[0 := Sock 0 0 0 0 ∅]> (<[1 := Sock 0 0 0 1 ∅]> (<[2 := Sock 0 0 0 1 ∅]> ∅)).

Definition scripted (fs : list (option Z)) : world := World stdio 0 fs.

Definition healthy : world := scripted [].

(** Replaying a list of calls, whatever they return. *)
Fixpoint play (os : OS) (cs : list syscall) (w : os_state os)
  : list event * os_state os :=
  match cs with
  | [] => ([], w)
  | c :: cs' =>
      let rw := os_call os c w in
      let p := play os cs' rw.2 in
      ((c, rw.1) :: p.1, p.2)
  end.

Definition is_socket (c : syscall) : bool :=
  match c with Socket _ _ _ => true | _ => false end.

Definition is_setsockopt (c : syscall) : bool :=
  match c with Setsockopt _ _ _ _ _ => true | _ => false end.

(** The options of a descriptor after a [setsockopt] call that returned
    [r]: the option is recorded when the call succeeded. *)
Definition opts_after (r level optname optval : Z) (m : gmap (Z * Z) Z)
  : gmap (Z * Z) Z :=
  if decide (r = 0) then <[(level, optname) := optval]> m else m.

(** The fault that hits the [i]-th call made from a state: none when the
    script says so or is exhausted. *)
Definition fault_at (w : world) (i : nat) : option Z :=
  mjoin (faults w !! i).

(** The descriptor a call works on; [socket] takes none. *)
Definition call_fd (c : syscall) : option Z :=
  match c with
  | Socket _ _ _ => None
  | Fcntl fd _ _ | Close fd | Setsockopt fd _ _ _ _ => Some fd
  end.

(** Error numbers used in the examples. *)
Definition EMFILE : Z := 24.
Definition ENOPROTOOPT : Z := 42.

(** Four scripts: the [socket] call fails; the [F_GETFL] call fails; the
    [F_SETFL] call fails; both [setsockopt] calls fail. *)
Definition socket_fault : world := scripted [Some EMFILE].
Definition getfl_fault : world := scripted [None; Some EBADF].
Definition setfl_fault : world := scripted [None; None; Some EBADF].
Definition options_fault : world :=
  scripted [None; None; None; Some ENOPROTOOPT; Some ENOPROTOOPT].

(** The [F_SETFL] call fails and the [close] that follows reports an
    error of its own. *)
Definition EINTR : Z := 4.
Definition setfl_close_fault : world :=
  scripted [None; None; Some EBADF; Some EINTR].

(** [create(AF_INET, SOCK_STREAM)] on Darwin. *)
Definition create_inet_stream (w : world) : outcome Z world :=
  @create darwin AF_INET SOCK_STREAM w.

(** * Properties *)

(** ** Running programs on any operating system *)

Lemma exec_play {A : Type} (os : OS) (p : prog A) (w : os_state os) :
  play os (calls (trace (exec os p w))) w
  = (trace (exec os p w), final (exec os p w)).
Proof.
  revert w. induction p as [a | c k IH]; intros w; simpl; [done |].
  unfold calls in IH. by rewrite IH.
Qed.

(** ** The fcntl wrappers *)

(** C9. [fcntl0] and [fcntl1] are exact wrappers of [fcntl]: on every
    operating system and in every state, [fcntl0(fd, option)] makes the one
    call [fcntl(fd, option)], returns what that call returns and leaves the
    state that call leaves; [fcntl1(fd, option, value)] does the same with
    the one call [fcntl(fd, option, value)]. *)
Theorem fcntl_wrappers_exact (os : OS) (w : os_state os) (fd option value : Z) :
  exec os (fcntl0 fd option) w
  = Outcome (os_call os (Fcntl fd option []) w).1
            (os_call os (Fcntl fd option []) w).2
            [(Fcntl fd option [], (os_call os (Fcntl fd option []) w).1)]
  ∧ exec os (fcntl1 fd option value) w
    = Outcome (os_call os (Fcntl fd option [value]) w).1
              (os_call os (Fcntl fd option [value]) w).2
              [(Fcntl fd option [value],
                (os_call os (Fcntl fd option [value]) w).1)].
Proof. split; reflexivity. Qed.

(** ** Descriptor allocation *)

Lemma first_free_ge (X : gset Z) (n : nat) (k : Z) : k ≤ first_free X n k.
Proof.
  revert k. induction n as [| n IH]; intros k; simpl; [lia |].
  case_decide; [specialize (IH (k + 1)); lia | lia].
Qed.

Lemma first_free_fresh (X : gset Z) (n : nat) (k : Z) :
  (size (filter (λ j, (k ≤ j)%Z) X) ≤ n)%nat → first_free X n k ∉ X.
Proof.
  revert k. induction n as [| n IH]; intros k Hsz; simpl.
  - assert (filter (λ j, k ≤ j) X ≡ ∅) as He by (apply size_empty_inv; lia).
    intros Hk. assert (k ∈ filter (λ j, k ≤ j) X) as Hin
      by (apply elem_of_filter; split; [lia | done]).
    rewrite He in Hin. by apply elem_of_empty in Hin.
  - case_decide as Hk; [| done].
    apply IH.
    assert (filter (λ j, k + 1 ≤ j) X ⊆ filter (λ j, k ≤ j) X ∖ {[k]}) as Hsub.
    { intros j [Hj1 Hj2]%elem_of_filter. apply elem_of_difference. split.
      - apply elem_of_filter. split; [lia | done].
      - rewrite elem_of_singleton. lia. }
    apply subseteq_size in Hsub.
    rewrite size_difference in Hsub.
    + rewrite size_singleton in Hsub.
      assert (k ∈ filter (λ j, k ≤ j) X) as Hin
        by (apply elem_of_filter; split; [lia | done]).
      assert (size (filter (λ j, k ≤ j) X) ≠ 0%nat) as Hne.
      { intros H0. apply size_empty_inv in H0. rewrite H0 in Hin.
        by apply elem_of_empty in Hin. }
      lia.
    + apply singleton_subseteq_l, elem_of_filter. split; [lia | done].
Qed.

Lemma first_free_lowest (X : gset Z) (n : nat) (k j : Z) :
  k ≤ j < first_free X n k → j ∈ X.
Proof.
  revert k. induction n as [| n IH]; intros k; simpl; [lia |].
  case_decide as Hk; [| lia].
  intros Hj. destruct (decide (j = k)) as [-> | Hne]; [done |].
  apply (IH (k + 1)). lia.
Qed.

Lemma lowest_unused_fresh (t : gmap Z sock) : t !! lowest_unused t = None.
Proof.
  apply not_elem_of_dom. unfold lowest_unused. apply first_free_fresh.
  apply subseteq_size. intros j [_ Hj]%elem_of_filter. done.
Qed.

Lemma lowest_unused_nonneg (t : gmap Z sock) : 0 ≤ lowest_unused t.
Proof. apply first_free_ge. Qed.

Lemma lowest_unused_lowest (t : gmap Z sock) (j : Z) :
  0 ≤ j < lowest_unused t → is_Some (t !! j).
Proof. intros Hj. apply elem_of_dom. by eapply first_free_lowest. Qed.

(** ** The three paths of BinarySpec_createNonBlockingSocket *)

Section Paths.
Context `{Platform}.
Variable os : OS.
Implicit Types (w : os_state os) (family type : Z).

(** Every execution follows one of three paths: the socket call fails; the
    [F_SETFL] call fails and the descriptor is closed; or both succeed and
    the two options are set. *)
Lemma create_paths family type w :
  let o := exec os (BinarySpec_createNonBlockingSocket family type) w in
  (∃ r, r < 0 ∧ result o = -1 ∧ trace o = [(Socket family type 0, r)])
  ∨ (∃ sck flags res rc, 0 ≤ sck ∧ res < 0 ∧ result o = -1 ∧
       trace o = [(Socket family type 0, sck);
                  (Fcntl sck F_GETFL [], flags);
                  (Fcntl sck F_SETFL [Z.lor O_NONBLOCK flags], res);
                  (Close sck, rc)])
  ∨ (∃ sck flags res r1 r2, 0 ≤ sck ∧ 0 ≤ res ∧ result o = sck ∧
       trace o = [(Socket family type 0, sck);
                  (Fcntl sck F_GETFL [], flags);
                  (Fcntl sck F_SETFL [Z.lor O_NONBLOCK flags], res);
                  (Setsockopt sck SOL_SOCKET SO_REUSEADDR 1 sizeof_int, r1);
                  (Setsockopt sck SOL_SOCKET SO_NOSIGPIPE 1 sizeof_int, r2)]).
Proof.
  cbn. set (s := os_call os (Socket family type 0) w).
  destruct (Z.ltb_spec s.1 0) as [Hs | Hs]; cbn.
  { left. by exists s.1. }
  right.
  set (g := os_call os (Fcntl s.1 F_GETFL []) s.2).
  set (f := os_call os (Fcntl s.1 F_SETFL [Z.lor O_NONBLOCK g.1]) g.2).
  destruct (Z.ltb_spec f.1 0) as [Hf | Hf]; cbn.
  - left. by eexists s.1, g.1, f.1, _.
  - right. by eexists s.1, g.1, f.1, _, _.
Qed.
End Paths.

(** ** Calls and return value, on any operating system *)

Section AnyOS.
Context `{Platform}.
Variable os : OS.
Implicit Types (w : os_state os) (family type : Z).

(** C10. Whatever the inputs and the operating system, the function makes
    exactly one [socket] call, it is the first call, and its protocol
    argument is 0: the family and type are the caller's, the protocol is
    not. *)
Theorem create_protocol_default family type w :
  head (calls (trace (exec os (BinarySpec_createNonBlockingSocket family type) w)))
  = Some (Socket family type 0)
  ∧ List.filter is_socket
      (calls (trace (exec os (BinarySpec_createNonBlockingSocket family type) w)))
    = [Socket family type 0].
Proof.
  pose proof (create_paths os family type w) as Hp. lazy zeta in Hp.
  destruct Hp as [(r & _ & _ & ->)
                 | [(sck & fl & res & rc & _ & _ & _ & ->)
                   | (sck & fl & res & r1 & r2 & _ & _ & _ & ->)]];
    by split.
Qed.

(** X3. The write half of the configuration step: when the [F_SETFL] call
    fails, the descriptor is closed by the last call and -1 is returned,
    whatever [close] itself returns. *)
Lemma create_setfl_failure_closes family type w sck v res :
  let o := exec os (BinarySpec_createNonBlockingSocket family type) w in
  trace o !! 2%nat = Some (Fcntl sck F_SETFL [v], res) → res < 0 →
  result o = -1 ∧ ∃ rc, drop 3 (trace o) = [(Close sck, rc)].
Proof.
  intros o. pose proof (create_paths os family type w) as Hp.
  lazy zeta in Hp. fold o in Hp.
  destruct Hp as [(r & _ & _ & ->)
                 | [(sck' & fl & res' & rc & _ & _ & Hres & ->)
                   | (sck' & fl & res' & r1 & r2 & _ & ? & _ & ->)]];
    cbn; intros [= <- <- <-] Hneg; [| lia].
  split; [done | by exists rc].
Qed.

(** C5. In every execution in which the [socket] call returned a
    descriptor and the [F_SETFL] call succeeded, the function returns that
    descriptor whatever the two [setsockopt] calls returned: both are made,
    their results [r1] and [r2] are not looked at, and no [close] is
    issued. *)
Theorem create_best_effort_options family type w sck v res :
  let o := exec os (BinarySpec_createNonBlockingSocket family type) w in
  trace o !! 0%nat = Some (Socket family type 0, sck) → 0 ≤ sck →
  trace o !! 2%nat = Some (Fcntl sck F_SETFL [v], res) → 0 ≤ res →
  result o = sck
  ∧ (∃ r1 r2, drop 3 (trace o)
       = [(Setsockopt sck SOL_SOCKET SO_REUSEADDR 1 sizeof_int, r1);
          (Setsockopt sck SOL_SOCKET SO_NOSIGPIPE 1 sizeof_int, r2)])
  ∧ existsb is_close (calls (trace o)) = false.
Proof.
  intros o. pose proof (create_paths os family type w) as Hp.
  lazy zeta in Hp. fold o in Hp.
  destruct Hp as [(r & _ & _ & ->)
                 | [(sck' & fl & res' & rc & _ & Hres & _ & ->)
                   | (sck' & fl & res' & r1 & r2 & _ & _ & -> & ->)]];
    cbn; intros [= <-] Hsck; intros [= <- <-] Hpos; [lia |].
  split; [done |]. split; [by exists r1, r2 | done].
Qed.

(** C4, as the code has it.  Both failures are reported by the same value:
    when the [socket] call fails, and when the [F_SETFL] call fails, the
    function returns -1, whatever the operating system's error code is. *)
Theorem create_error_value family type w :
  let o := exec os (BinarySpec_createNonBlockingSocket family type) w in
  (∃ r, head (trace o) = Some (Socket family type 0, r) ∧ r < 0)
  ∨ (∃ sck v res, trace o !! 2%nat = Some (Fcntl sck F_SETFL [v], res) ∧ res < 0) →
  result o = -1.
Proof.
  intros o. pose proof (create_paths os family type w) as Hp.
  lazy zeta in Hp. fold o in Hp.
  destruct Hp as [(r & _ & Hr & ->)
                 | [(sck' & fl & res' & rc & _ & _ & Hr & ->)
                   | (sck' & fl & res' & r1 & r2 & ? & ? & _ & ->)]];
    cbn; intros [(r0 & [= <-] & ?) | (s0 & v0 & r0 & [= <- <- <-] & ?)];
    done || lia.
Qed.
End AnyOS.

(** ** What each call does to the descriptor table of [posix] *)

Section PosixCalls.
Context `{Platform}.
Implicit Types (w : world) (fd : Z).

Lemma posix_socket domain type protocol w :
  let rw := posix_call (Socket domain type protocol) w in
  (rw.1 = -1 ∧ fds rw.2 = fds w)
  ∨ (rw.1 = lowest_unused (fds w) ∧
     fds rw.2 = <[rw.1 := new_sock domain type protocol]> (fds w)).
Proof.
  destruct w as [t e [| [e' |] fs]]; cbn; auto.
Qed.

Lemma posix_getfl fd w :
  let rw := posix_call (Fcntl fd F_GETFL []) w in
  fds rw.2 = fds w ∧
  (rw.1 = -1 ∨ ∃ s, fds w !! fd = Some s ∧ rw.1 = so_flags s).
Proof.
  destruct w as [t e [| [e' |] fs]]; cbn; unfold sys_fcntl; cbn;
    try (split; [done | by left]);
    (destruct (t !! fd) as [s |] eqn:Hfd; cbn; [| split; [done | by left]]);
    (rewrite decide_True by done); cbn; (split; [done | right; by exists s]).
Qed.

Lemma posix_setfl fd v w :
  let rw := posix_call (Fcntl fd F_SETFL [v]) w in
  (rw.1 = -1 ∧ fds rw.2 = fds w)
  ∨ (rw.1 = 0 ∧ ∃ s, fds w !! fd = Some s ∧
       fds rw.2 = <[fd := with_flags v s]> (fds w)).
Proof.
  pose proof F_GETFL_SETFL as Hne.
  destruct w as [t e [| [e' |] fs]]; cbn; unfold sys_fcntl; cbn;
    try (by left);
    (destruct (t !! fd) as [s |] eqn:Hfd; cbn; [| by left]);
    (rewrite decide_False by done); (rewrite decide_True by done); cbn;
    right; (split; [done | by exists s]).
Qed.

Lemma posix_close fd w :
  fds (posix_call (Close fd) w).2 = delete fd (fds w).
Proof.
  destruct w as [t e [| [e' |] fs]]; cbn; unfold sys_close; cbn;
    (destruct (t !! fd) as [s |] eqn:Hfd; cbn; [done | by rewrite delete_id]).
Qed.

Lemma posix_setsockopt fd level optname optval optlen w :
  let rw := posix_call (Setsockopt fd level optname optval optlen) w in
  fds rw.2 = fds w
  ∨ ∃ s, fds w !! fd = Some s ∧
      fds rw.2 = <[fd := with_opt level optname optval s]> (fds w).
Proof.
  destruct w as [t e [| [e' |] fs]]; cbn; unfold sys_setsockopt; cbn;
    try (by left);
    (destruct (t !! fd) as [s |] eqn:Hfd; cbn; [right; by exists s | by left]).
Qed.

(** Setting an option keeps a descriptor open and its status flags as they
    are, whether the call succeeds or not. *)
Lemma posix_setsockopt_flags fd level optname optval optlen w t s :
  fds w = <[fd := s]> t →
  ∃ s', so_flags s' = so_flags s ∧
    fds (posix_call (Setsockopt fd level optname optval optlen) w).2
    = <[fd := s']> t.
Proof.
  intros Ht.
  destruct (posix_setsockopt fd level optname optval optlen w)
    as [Hsame | (s0 & Hs0 & Hins)]; cbn in *.
  - exists s. by rewrite Hsame.
  - rewrite Ht, lookup_insert_eq in Hs0. injection Hs0 as <-.
    exists (with_opt level optname optval s). split; [done |].
    by rewrite Hins, Ht, insert_insert_eq.
Qed.
End PosixCalls.

(** ** BinarySpec_createNonBlockingSocket on the descriptor table *)

Section OnPosix.
Context `{Platform}.
Implicit Types (w : world) (family type fd : Z).

(** The three paths with the table each of them leaves. *)
Lemma create_table family type w :
  let o := create family type w in
  (∃ r, r < 0 ∧ result o = -1 ∧ trace o = [(Socket family type 0, r)] ∧
     fds (final o) = fds w)
  ∨ (∃ flags res rc, let sck := lowest_unused (fds w) in
       res < 0 ∧ result o = -1 ∧
       trace o = [(Socket family type 0, sck);
                  (Fcntl sck F_GETFL [], flags);
                  (Fcntl sck F_SETFL [Z.lor O_NONBLOCK flags], res);
                  (Close sck, rc)] ∧
       fds (final o) = fds w)
  ∨ (∃ flags r1 r2 s, let sck := lowest_unused (fds w) in
       result o = sck ∧
       trace o = [(Socket family type 0, sck);
                  (Fcntl sck F_GETFL [], flags);
                  (Fcntl sck F_SETFL [Z.lor O_NONBLOCK flags], 0);
                  (Setsockopt sck SOL_SOCKET SO_REUSEADDR 1 sizeof_int, r1);
                  (Setsockopt sck SOL_SOCKET SO_NOSIGPIPE 1 sizeof_int, r2)] ∧
       (flags = -1 ∨ flags = O_RDWR) ∧
       fds (posix_call (Socket family type 0) w).2
         = <[sck := new_sock family type 0]> (fds w) ∧
       so_flags s = Z.lor O_NONBLOCK flags ∧
       fds (final o) = <[sck := s]> (fds w)).
Proof.
  unfold create.
  pose proof (exec_play posix (BinarySpec_createNonBlockingSocket family type) w)
    as Hplay.
  pose proof (create_paths posix family type w) as Hpaths. lazy zeta in Hpaths.
  change (os_state posix) with world in *.
  set (o := exec posix _ w) in *. clearbody o. lazy zeta.
  destruct Hpaths
    as [(r & Hr & Hres & Htr)
       | [(sck & fl & res & rc & Hsck & Hres & Hresult & Htr)
         | (sck & fl & res & r1 & r2 & Hsck & Hres & Hresult & Htr)]];
    rewrite Htr in Hplay; cbn in Hplay.
  - left. exists r. repeat split; try done.
    injection Hplay as Hr1 <-.
    destruct (posix_socket family type 0 w) as [[_ Ht] | [Hl _]]; [done |].
    pose proof (lowest_unused_nonneg (fds w)). cbn in Hl. lia.
  - right. left.
    injection Hplay as E1 E2 E3 E4 <-.
    pose proof (lowest_unused_fresh (fds w)) as Hfresh.
    destruct (posix_socket family type 0 w) as [[Hs _] | [Hs Ht1]];
      [cbn in Hs; lia |].
    cbn in Hs, Ht1. rewrite E1 in Hs, Ht1. clear E1.
    rewrite Hs in *. clear Hs Hsck sck.
    set (w1 := (posix_call (Socket family type 0) w).2) in *.
    destruct (posix_getfl (lowest_unused (fds w)) w1) as [Ht2 _].
    cbn in Ht2.
    set (w2 := (posix_call (Fcntl _ F_GETFL []) w1).2) in *.
    exists fl, res, rc. repeat split; try done.
    rewrite posix_close.
    destruct (posix_setfl (lowest_unused (fds w)) (Z.lor O_NONBLOCK fl) w2)
      as [[_ Ht3] | [Hz _]]; cbn in *; [| lia].
    rewrite Ht3, Ht2, Ht1. by apply delete_insert_id.
  - right. right.
    injection Hplay as E1 E2 E3 E4 E5 <-.
    pose proof (lowest_unused_fresh (fds w)) as Hfresh.
    destruct (posix_socket family type 0 w) as [[Hs _] | [Hs Ht1]];
      [cbn in Hs; lia |].
    cbn in Hs, Ht1. rewrite E1 in Hs, Ht1. clear E1.
    rewrite Hs in *. clear Hs Hsck sck.
    set (sck := lowest_unused (fds w)) in *.
    set (w1 := (posix_call (Socket family type 0) w).2) in *.
    destruct (posix_getfl sck w1) as [Ht2 Hfl]. cbn in Ht2, Hfl.
    rewrite E2 in Hfl.
    set (w2 := (posix_call (Fcntl _ F_GETFL []) w1).2) in *.
    destruct (posix_setfl sck (Z.lor O_NONBLOCK fl) w2)
      as [[Hz _] | [Hz (s & Hs2 & Ht3)]]; cbn in Hz; [lia |].
    cbn in Ht3. rewrite E3 in Hz. subst res.
    set (w3 := (posix_call (Fcntl _ F_SETFL _) w2).2) in *.
    rewrite Ht2, Ht1 in Hs2, Ht3. rewrite lookup_insert_eq in Hs2.
    injection Hs2 as <-. rewrite insert_insert_eq in Ht3.
    assert (fl = -1 ∨ fl = O_RDWR) as Hflags.
    { destruct Hfl as [? | (s & Hs1 & ?)]; [by left | right].
      rewrite Ht1, lookup_insert_eq in Hs1. by injection Hs1 as <-. }
    rewrite Hz in Htr.
    destruct (posix_setsockopt_flags sck SOL_SOCKET SO_REUSEADDR 1 sizeof_int
                w3 _ _ Ht3) as (s4 & Hf4 & Ht4).
    destruct (posix_setsockopt_flags sck SOL_SOCKET SO_NOSIGPIPE 1 sizeof_int
                _ _ _ Ht4) as (s5 & Hf5 & Ht5).
    exists fl, r1, r2, s5. repeat split; try done.
    by rewrite Hf5, Hf4.
Qed.

(** C7. Whatever the family and type, when the [socket] call fails the
    function returns -1 at once: that call is the only one it makes (no
    [close], no further call), and the descriptor table is the one before
    the call, so nothing was created. *)
Theorem create_socket_failure family type w r :
  let o := create family type w in
  head (trace o) = Some (Socket family type 0, r) → r < 0 →
  result o = -1
  ∧ trace o = [(Socket family type 0, r)]
  ∧ fds (final o) = fds w.
Proof.
  intros o. pose proof (create_table family type w) as Hp.
  lazy zeta in Hp. fold o in Hp.
  pose proof (lowest_unused_nonneg (fds w)) as Hnn.
  destruct Hp as [(r' & _ & Hr & Htr & Hfds)
                 | [(fl & res & rc & _ & _ & Htr & _)
                   | (fl & r1 & r2 & s & _ & Htr & _)]];
    rewrite Htr; cbn; intros [= <-] Hneg; [done | lia | lia].
Qed.

(** C1. Every execution that returns an error leaves the descriptor table
    as it was before the call, so the number of open descriptors is the
    same; and when a descriptor had been created, the last call of the
    execution is the [close] of that descriptor. *)
Theorem create_error_no_leak family type w :
  let o := create family type w in
  result o < 0 →
  fds (final o) = fds w
  ∧ size (fds (final o)) = size (fds w)
  ∧ ∀ sck, head (trace o) = Some (Socket family type 0, sck) → 0 ≤ sck →
      last (calls (trace o)) = Some (Close sck).
Proof.
  intros o. pose proof (create_table family type w) as Hp.
  lazy zeta in Hp. fold o in Hp.
  pose proof (lowest_unused_nonneg (fds w)) as Hnn.
  destruct Hp as [(r' & Hneg & Hr & Htr & Hfds)
                 | [(fl & res & rc & _ & Hr & Htr & Hfds)
                   | (fl & r1 & r2 & s & Hr & _)]];
    intros Herr; [| | lia]; rewrite Hfds, Htr; (split; [done |]);
    (split; [done |]); cbn; intros sck [= <-] Hsck; [lia | done].
Qed.

(** C6. A returned descriptor is never partial: when the function returns
    a non-negative value, that descriptor is open in the final state, its
    status flags contain [O_NONBLOCK], the [F_SETFL] call that wrote them
    returned success, and no [close] was issued. *)
Theorem create_no_partial_descriptor family type w :
  let o := create family type w in
  0 ≤ result o →
  ∃ s v,
    fds (final o) !! result o = Some s
    ∧ Z.land (so_flags s) O_NONBLOCK = O_NONBLOCK
    ∧ trace o !! 2%nat = Some (Fcntl (result o) F_SETFL [v], 0)
    ∧ so_flags s = v
    ∧ existsb is_close (calls (trace o)) = false.
Proof.
  intros o. pose proof (create_table family type w) as Hp.
  lazy zeta in Hp. fold o in Hp.
  destruct Hp as [(r' & _ & Hr & _)
                 | [(fl & res & rc & _ & Hr & _)
                   | (fl & r1 & r2 & s & Hr & Htr & _ & _ & Hfl & Hfds)]];
    intros Hok; [lia | lia |].
  exists s, (Z.lor O_NONBLOCK fl).
  rewrite Hfds, Htr, Hr, lookup_insert_eq, Hfl.
  repeat split; try done.
  apply Z.bits_inj'. intros n _.
  rewrite Z.land_spec, Z.lor_spec.
  by destruct (Z.testbit O_NONBLOCK n), (Z.testbit fl n).
Qed.

(** C2. On every successful call the flags are set by read-modify-write:
    the value [flags] read by the [F_GETFL] call is or-ed with [O_NONBLOCK]
    and written back, the descriptor ends with exactly these flags, they
    contain [O_NONBLOCK], and every flag the descriptor had after its
    creation (state [s0]) is still set in the end (state [s]). *)
Theorem create_nonblock_read_modify_write family type w :
  let o := create family type w in
  0 ≤ result o →
  ∃ flags s0 s,
    trace o !! 1%nat = Some (Fcntl (result o) F_GETFL [], flags)
    ∧ trace o !! 2%nat
      = Some (Fcntl (result o) F_SETFL [Z.lor O_NONBLOCK flags], 0)
    ∧ fds (posix_call (Socket family type 0) w).2 !! result o = Some s0
    ∧ fds (final o) !! result o = Some s
    ∧ so_flags s = Z.lor O_NONBLOCK flags
    ∧ (flags = so_flags s0 → so_flags s = Z.lor O_NONBLOCK (so_flags s0))
    ∧ Z.land (so_flags s) O_NONBLOCK = O_NONBLOCK
    ∧ ∀ i, 0 ≤ i → Z.testbit (so_flags s0) i = true →
        Z.testbit (so_flags s) i = true.
Proof.
  intros o. pose proof (create_table family type w) as Hp.
  lazy zeta in Hp. fold o in Hp.
  destruct Hp as [(r' & _ & Hr & _)
                 | [(fl & res & rc & _ & Hr & _)
                   | (fl & r1 & r2 & s & Hr & Htr & Hrd & Hnew & Hfl & Hfds)]];
    intros Hok; [lia | lia |].
  exists fl, (new_sock family type 0), s.
  rewrite Hfds, Hnew, Htr, Hr, !lookup_insert_eq, Hfl.
  repeat split; try done.
  - by intros ->.
  - apply Z.bits_inj'. intros n _. rewrite Z.land_spec, Z.lor_spec.
    by destruct (Z.testbit O_NONBLOCK n), (Z.testbit fl n).
  - intros i Hi Hset. rewrite Z.lor_spec.
    destruct Hrd as [-> | ->].
    + rewrite Z.bits_m1 by done. apply orb_true_r.
    + cbn in Hset. rewrite Hset. apply orb_true_r.
Qed.

(** C8. A call touches no descriptor but its own.  Every descriptor other
    than the one returned is, after the call, exactly as before it (and on
    failure so is the whole table); the returned descriptor was not open
    before; every call after [socket] works on the descriptor [socket]
    returned; and a second call with the same arguments returns another
    descriptor and leaves the first one as the first call left it.  The
    function itself has no state: its embedding is a closed program of
    [family] and [type]. *)
Theorem create_frame family type w :
  let o := create family type w in
  let o' := create family type (final o) in
  (∀ fd, fd ≠ result o ∨ result o < 0 → fds (final o) !! fd = fds w !! fd)
  ∧ (0 ≤ result o → fds w !! result o = None)
  ∧ (∀ sck, head (trace o) = Some (Socket family type 0, sck) →
       Forall (λ c, call_fd c = Some sck) (tail (calls (trace o))))
  ∧ (0 ≤ result o → 0 ≤ result o' →
       result o' ≠ result o
       ∧ fds (final o') !! result o = fds (final o) !! result o).
Proof.
  intros o o'.
  assert (∀ w', let o := create family type w' in
            ∀ fd, fd ≠ result o ∨ result o < 0 →
              fds (final o) !! fd = fds w' !! fd) as Hframe.
  { intros w' o0. pose proof (create_table family type w') as Hp.
    lazy zeta in Hp. fold o0 in Hp.
    destruct Hp as [(r' & _ & Hr & _ & ->)
                   | [(fl & res & rc & _ & Hr & _ & ->)
                     | (fl & r1 & r2 & s & Hr & _ & _ & _ & _ & ->)]];
      intros fd Hfd; [done | done |].
    pose proof (lowest_unused_nonneg (fds w')).
    rewrite lookup_insert_ne; [done | lia]. }
  assert (∀ w', let o := create family type w' in
            0 ≤ result o →
            fds w' !! result o = None ∧ is_Some (fds (final o) !! result o))
    as Hnew.
  { intros w' o0. pose proof (create_table family type w') as Hp.
    lazy zeta in Hp. fold o0 in Hp.
    destruct Hp as [(r' & _ & Hr & _)
                   | [(fl & res & rc & _ & Hr & _)
                     | (fl & r1 & r2 & s & Hr & _ & _ & _ & _ & ->)]];
      intros Hok; [lia | lia |].
    rewrite Hr, lookup_insert_eq. split; [apply lowest_unused_fresh | done]. }
  split; [apply Hframe |]. split; [apply Hnew |]. split.
  - pose proof (create_paths posix family type w) as Hp.
    lazy zeta in Hp. clear o' Hframe Hnew. subst o. unfold create.
    change (os_state posix) with world in *.
    destruct Hp as [(r & _ & _ & ->)
                   | [(sck' & fl & res & rc & _ & _ & _ & ->)
                     | (sck' & fl & res & r1 & r2 & _ & _ & _ & ->)]];
      cbn; intros sck [= <-]; repeat constructor.
  - intros Hok Hok'.
    destruct (Hnew w Hok) as [_ [x Hopen]].
    destruct (Hnew (final o) Hok') as [Hfresh _].
    lazy zeta in Hframe. subst o o'.
    assert (result (create family type (final (create family type w)))
            ≠ result (create family type w)) as Hne.
    { intros Heq. rewrite Heq in Hfresh. congruence. }
    split; [done |]. apply (Hframe (final (create family type w))).
    left. congruence.
Qed.
End OnPosix.

(** ** Concrete executions *)

Example create_healthy :
  result (create_inet_stream healthy) = 3
  ∧ trace (create_inet_stream healthy)
    = [(Socket 2 1 0, 3); (Fcntl 3 3 [], 2); (Fcntl 3 4 [6], 0);
       (Setsockopt 3 65535 4 1 4, 0); (Setsockopt 3 65535 4130 1 4, 0)]
  ∧ so_flags <$> fds (final (create_inet_stream healthy)) !! 3 = Some 6.
Proof. repeat split; reflexivity. Qed.

(** C3, the defect.  The [F_GETFL] call fails (it returns -1) and the
    [F_SETFL] call that follows succeeds: the function does not look at the
    value read, passes [O_NONBLOCK | -1 = -1] as the new flags, closes
    nothing and returns the descriptor 3, which is still open, instead of
    closing it and returning the error. *)
Theorem create_getfl_failure_unchecked :
  let o := create_inet_stream getfl_fault in
  trace o
  = [(Socket AF_INET SOCK_STREAM 0, 3);
     (Fcntl 3 (@F_GETFL darwin) [], -1);
     (Fcntl 3 (@F_SETFL darwin) [-1], 0);
     (Setsockopt 3 (@SOL_SOCKET darwin) (@SO_REUSEADDR darwin) 1 4, 0);
     (Setsockopt 3 (@SOL_SOCKET darwin) (@SO_NOSIGPIPE darwin) 1 4, 0)]
  ∧ result o = 3
  ∧ existsb is_close (calls (trace o)) = false
  ∧ so_flags <$> fds (final o) !! 3 = Some (-1)
  ∧ errno (final o) = EBADF.
Proof. repeat split; reflexivity. Qed.

(** C4, refuted as stated.  A failure of the [socket] call with [EMFILE]
    and a failure of the [F_SETFL] call with [EBADF] are two failures of
    different kinds with different error codes, and the function returns
    the same value for both. *)
Lemma create_errors_indistinguishable :
  let o1 := create_inet_stream socket_fault in
  let o2 := create_inet_stream setfl_fault in
  trace o1 = [(Socket AF_INET SOCK_STREAM 0, -1)]
  ∧ errno (final o1) = EMFILE
  ∧ trace o2 !! 2%nat = Some (Fcntl 3 (@F_SETFL darwin) [6], -1)
  ∧ errno (final o2) = EBADF
  ∧ result o1 = result o2.
Proof. repeat split; reflexivity. Qed.

(** ** The theorems at concrete inputs *)

Lemma create_socket_failure_witness :
  head (trace (create_inet_stream socket_fault))
  = Some (Socket AF_INET SOCK_STREAM 0, -1)
  ∧ -1 < 0
  ∧ result (create_inet_stream socket_fault) = -1
  ∧ trace (create_inet_stream socket_fault)
    = [(Socket AF_INET SOCK_STREAM 0, -1)]
  ∧ fds (final (create_inet_stream socket_fault)) = fds socket_fault.
Proof.
  split; [reflexivity |]. split; [lia |].
  apply (@create_socket_failure darwin AF_INET SOCK_STREAM socket_fault (-1));
    [reflexivity | lia].
Defined.

Lemma create_error_no_leak_witness :
  result (create_inet_stream setfl_fault) < 0
  ∧ fds (final (create_inet_stream setfl_fault)) = fds setfl_fault
  ∧ size (fds (final (create_inet_stream setfl_fault))) = 3%nat
  ∧ last (calls (trace (create_inet_stream setfl_fault))) = Some (Close 3).
Proof.
  assert (result (create_inet_stream setfl_fault) < 0) as Herr
    by (vm_compute; reflexivity).
  split; [exact Herr |].
  destruct (@create_error_no_leak darwin AF_INET SOCK_STREAM setfl_fault Herr)
    as (Hfds & Hsize & Hclose).
  split; [exact Hfds |]. split; [exact Hsize |].
  apply Hclose; [reflexivity | lia].
Defined.

Lemma create_nonblock_read_modify_write_witness :
  0 ≤ result (create_inet_stream healthy)
  ∧ ∃ flags s0 s,
      trace (create_inet_stream healthy) !! 1%nat
      = Some (Fcntl 3 (@F_GETFL darwin) [], flags)
      ∧ flags = so_flags s0
      ∧ fds (final (create_inet_stream healthy)) !! 3 = Some s
      ∧ so_flags s = Z.lor (@O_NONBLOCK darwin) (so_flags s0).
Proof.
  assert (0 ≤ result (create_inet_stream healthy)) as Hok
    by (vm_compute; discriminate).
  split; [exact Hok |].
  destruct (@create_nonblock_read_modify_write darwin AF_INET SOCK_STREAM
              healthy Hok)
    as (flags & s0 & s & Hget & Hset & Hs0 & Hs & Hfl & Hrmw & Hnb & Hkeep).
  exists flags, s0, s.
  assert (flags = so_flags s0) as Hrd.
  { change (result (create_inet_stream healthy)) with 3 in Hget, Hs0.
    vm_compute in Hget, Hs0.
    injection Hget as <-. injection Hs0 as <-. reflexivity. }
  split; [exact Hget |]. split; [exact Hrd |]. split; [exact Hs |].
  exact (Hrmw Hrd).
Defined.

Lemma create_best_effort_options_witness :
  let o := exec (@posix darwin)
             (@BinarySpec_createNonBlockingSocket darwin AF_INET SOCK_STREAM)
             options_fault in
  trace o !! 3%nat
  = Some (Setsockopt 3 (@SOL_SOCKET darwin) (@SO_REUSEADDR darwin) 1 4, -1)
  ∧ trace o !! 4%nat
    = Some (Setsockopt 3 (@SOL_SOCKET darwin) (@SO_NOSIGPIPE darwin) 1 4, -1)
  ∧ result o = 3
  ∧ existsb is_close (calls (trace o)) = false.
Proof.
  split; [reflexivity |]. split; [reflexivity |].
  destruct (@create_best_effort_options darwin (@posix darwin)
              AF_INET SOCK_STREAM options_fault 3 6 0)
    as (Hres & _ & Hclose); [reflexivity | lia | reflexivity | lia |].
  split; [exact Hres | exact Hclose].
Defined.

Lemma create_error_value_witness :
  head (trace (create_inet_stream socket_fault))
  = Some (Socket AF_INET SOCK_STREAM 0, -1)
  ∧ trace (create_inet_stream setfl_fault) !! 2%nat
    = Some (Fcntl 3 (@F_SETFL darwin) [6], -1)
  ∧ result (create_inet_stream socket_fault) = -1
  ∧ result (create_inet_stream setfl_fault) = -1.
Proof.
  split; [reflexivity |]. split; [reflexivity |]. split.
  - apply (@create_error_value darwin (@posix darwin) AF_INET SOCK_STREAM
             socket_fault).
    left. exists (-1). split; [reflexivity | lia].
  - apply (@create_error_value darwin (@posix darwin) AF_INET SOCK_STREAM
             setfl_fault).
    right. exists 3, 6, (-1). split; [reflexivity | lia].
Defined.

Lemma create_no_partial_descriptor_witness :
  0 ≤ result (create_inet_stream healthy)
  ∧ ∃ s v,
      fds (final (create_inet_stream healthy))
        !! result (create_inet_stream healthy) = Some s
      ∧ Z.land (so_flags s) (@O_NONBLOCK darwin) = @O_NONBLOCK darwin
      ∧ trace (create_inet_stream healthy) !! 2%nat
        = Some (Fcntl (result (create_inet_stream healthy))
                  (@F_SETFL darwin) [v], 0)
      ∧ so_flags s = v
      ∧ existsb is_close (calls (trace (create_inet_stream healthy))) = false.
Proof.
  assert (0 ≤ result (create_inet_stream healthy)) as Hok
    by (vm_compute; discriminate).
  split; [exact Hok |].
  exact (@create_no_partial_descriptor darwin AF_INET SOCK_STREAM healthy Hok).
Defined.

Lemma create_frame_witness :
  let o := create_inet_stream healthy in
  let o' := create_inet_stream (final o) in
  result o = 3 ∧ result o' = 4
  ∧ fds (final o) !! 2 = fds healthy !! 2
  ∧ fds healthy !! 3 = None
  ∧ fds (final o') !! 3 = fds (final o) !! 3.
Proof.
  intros o o'.
  destruct (@create_frame darwin AF_INET SOCK_STREAM healthy)
    as (Hframe & Hnew & _ & Hsecond).
  split; [reflexivity |]. split; [reflexivity |].
  split; [apply Hframe; left; discriminate |].
  split; [apply Hnew; vm_compute; discriminate |].
  apply Hsecond; vm_compute; discriminate.
Defined.

(** * Further properties of the header *)

(** ** On any operating system *)

Section MoreAnyOS.
Context `{Platform}.
Variable os : OS.
Implicit Types (w : os_state os) (family type : Z).

(** X1. The function returns -1 or the descriptor the [socket] call
    returned, which is then non-negative: whatever negative numbers the
    operating system answers with, no other negative value comes back. *)
Theorem create_result_range family type w :
  result (exec os (BinarySpec_createNonBlockingSocket family type) w) = -1
  ∨ (0 ≤ result (exec os (BinarySpec_createNonBlockingSocket family type) w)
     ∧ head (trace (exec os (BinarySpec_createNonBlockingSocket family type) w))
       = Some (Socket family type 0,
               result (exec os (BinarySpec_createNonBlockingSocket family type) w))).
Proof.
  pose proof (create_paths os family type w) as Hp. lazy zeta in Hp.
  destruct Hp as [(r & _ & Hr & _)
                 | [(sck & fl & res & rc & _ & _ & Hr & _)
                   | (sck & fl & res & r1 & r2 & Hsck & _ & Hr & Htr)]];
    [by left | by left | right].
  rewrite Htr, Hr. by split.
Qed.

(** X2. An execution makes at most five system calls, at most one of them
    a [close], and it makes [setsockopt] calls exactly when it returns a
    descriptor: no option is ever set on a descriptor that is given up. *)
Theorem create_call_budget family type w :
  (length (trace (exec os (BinarySpec_createNonBlockingSocket family type) w))
   ≤ 5)%nat
  ∧ (length (List.filter is_close
       (calls (trace (exec os (BinarySpec_createNonBlockingSocket family type) w))))
     ≤ 1)%nat
  ∧ existsb is_setsockopt
      (calls (trace (exec os (BinarySpec_createNonBlockingSocket family type) w)))
    = (0 <=? result (exec os (BinarySpec_createNonBlockingSocket family type) w)).
Proof.
  pose proof (create_paths os family type w) as Hp. lazy zeta in Hp.
  destruct Hp as [(r & _ & Hr & Htr)
                 | [(sck & fl & res & rc & _ & _ & Hr & Htr)
                   | (sck & fl & res & r1 & r2 & Hsck & _ & Hr & Htr)]];
    rewrite Htr, Hr; cbn; (split; [lia |]); (split; [lia |]); [done | done |].
  symmetry. by apply Z.leb_le.
Qed.

(** X4. The value read by [F_GETFL] goes into the [F_SETFL] call untested:
    the next call is always [F_SETFL] on the same descriptor with
    [O_NONBLOCK | flags], and when the read failed with -1 the value
    written is -1, that is every flag at once. *)
Theorem create_getfl_value_written family type w sck flags :
  let o := exec os (BinarySpec_createNonBlockingSocket family type) w in
  trace o !! 1%nat = Some (Fcntl sck F_GETFL [], flags) →
  ∃ res, trace o !! 2%nat
         = Some (Fcntl sck F_SETFL [Z.lor O_NONBLOCK flags], res)
         ∧ (flags = -1 → Z.lor O_NONBLOCK flags = -1).
Proof.
  intros o. pose proof (create_paths os family type w) as Hp.
  lazy zeta in Hp. fold o in Hp.
  destruct Hp as [(r & _ & _ & ->)
                 | [(sck' & fl & res & rc & _ & _ & _ & ->)
                   | (sck' & fl & res & r1 & r2 & _ & _ & _ & ->)]];
    cbn; intros [= <- <-]; exists res;
    (split; [done | intros ->; apply Z.lor_m1_r]).
Qed.
End MoreAnyOS.

(** ** The function as a chain of calls *)

Section Chain.
Context `{Platform}.
Variable os : OS.
Implicit Types (w : os_state os) (family type : Z).

(** The outcome written out call by call: each call runs in the state the
    previous one left. *)
Lemma create_chain family type w :
  let s1 := os_call os (Socket family type 0) w in
  let s2 := os_call os (Fcntl s1.1 F_GETFL []) s1.2 in
  let s3 := os_call os (Fcntl s1.1 F_SETFL [Z.lor O_NONBLOCK s2.1]) s2.2 in
  let sc := os_call os (Close s1.1) s3.2 in
  let s4 := os_call os (Setsockopt s1.1 SOL_SOCKET SO_REUSEADDR 1 sizeof_int)
              s3.2 in
  let s5 := os_call os (Setsockopt s1.1 SOL_SOCKET SO_NOSIGPIPE 1 sizeof_int)
              s4.2 in
  exec os (BinarySpec_createNonBlockingSocket family type) w
  = if s1.1 <? 0 then
      Outcome (-1) s1.2 [(Socket family type 0, s1.1)]
    else if s3.1 <? 0 then
      Outcome (-1) sc.2
        [(Socket family type 0, s1.1);
         (Fcntl s1.1 F_GETFL [], s2.1);
         (Fcntl s1.1 F_SETFL [Z.lor O_NONBLOCK s2.1], s3.1);
         (Close s1.1, sc.1)]
    else
      Outcome s1.1 s5.2
        [(Socket family type 0, s1.1);
         (Fcntl s1.1 F_GETFL [], s2.1);
         (Fcntl s1.1 F_SETFL [Z.lor O_NONBLOCK s2.1], s3.1);
         (Setsockopt s1.1 SOL_SOCKET SO_REUSEADDR 1 sizeof_int, s4.1);
         (Setsockopt s1.1 SOL_SOCKET SO_NOSIGPIPE 1 sizeof_int, s5.1)].
Proof.
  cbn. destruct (os_call os (Socket family type 0) w).1 eqn:E1; cbn; try done;
    match goal with
    | |- context [if ?c then _ else _] => by destruct c
    end.
Qed.
End Chain.

(** ** More on the descriptor table of [posix] *)

Section MorePosix.
Context `{Platform}.
Implicit Types (w : world) (family type fd : Z).

(** Every call consumes one entry of the script. *)
Lemma posix_call_script c w : faults (posix_call c w).2 = tail (faults w).
Proof.
  destruct w as [t e [| f fs]], c; cbn;
    unfold sys_socket, sys_fcntl, sys_setsockopt, sys_close, fail;
    repeat case_match; by simplify_eq/=.
Qed.

Lemma fault_at_next c w i : fault_at (posix_call c w).2 i = fault_at w (S i).
Proof. unfold fault_at. rewrite posix_call_script. by destruct (faults w). Qed.

Lemma posix_call_fault c w e :
  fault_at w 0 = Some e → is_close c = false →
  posix_call c w = (-1, World (fds w) e (tail (faults w))).
Proof.
  destruct w as [t e0 [| [e' |] fs]], c; cbn; try done; by intros [= ->].
Qed.

Lemma posix_socket_ok domain type protocol w :
  fault_at w 0 = None →
  posix_call (Socket domain type protocol) w
  = (lowest_unused (fds w),
     World (<[lowest_unused (fds w) := new_sock domain type protocol]> (fds w))
           (errno w) (tail (faults w))).
Proof. by destruct w as [t e0 [| [e' |] fs]]. Qed.

Lemma posix_getfl_ok fd w s :
  fault_at w 0 = None → fds w !! fd = Some s →
  posix_call (Fcntl fd F_GETFL []) w
  = (so_flags s, World (fds w) (errno w) (tail (faults w))).
Proof.
  destruct w as [t e0 [| [e' |] fs]]; cbn; try done; intros _ Hs;
    unfold sys_fcntl; cbn; rewrite Hs; by rewrite decide_True.
Qed.

(** [close] of an open descriptor releases it; a fault makes it return -1
    and leaves its own error in [errno]. *)
Lemma posix_close_open fd w s :
  fds w !! fd = Some s →
  posix_call (Close fd) w
  = (if fault_at w 0 is Some _ then -1 else 0,
     World (delete fd (fds w)) (default (errno w) (fault_at w 0))
           (tail (faults w))).
Proof.
  destruct w as [t e0 [| [e' |] fs]]; cbn; intros Hs;
    unfold sys_close; cbn; by rewrite Hs.
Qed.

(** X8. What [errno] holds when -1 comes back.  After a failed [socket]
    call it is the error of that call.  After a failed [F_SETFL] call it is
    the error of that call only if the [close] that follows succeeds: the
    function does not save [errno], so an error reported by [close]
    replaces it. *)
Theorem create_errno_at_return family type w e :
  let o := create family type w in
  (fault_at w 0 = Some e → result o = -1 ∧ errno (final o) = e)
  ∧ (fault_at w 0 = None → fault_at w 2 = Some e →
     result o = -1 ∧ errno (final o) = default e (fault_at w 3)).
Proof.
  intros o. subst o. unfold create. rewrite create_chain. lazy zeta.
  change (os_call posix) with posix_call.
  change (os_state posix) with world.
  split.
  - intros H0. by rewrite (posix_call_fault _ w e H0).
  - intros H0 H2.
    set (s1 := posix_call (Socket family type 0) w).
    assert (s1.1 = lowest_unused (fds w)
            ∧ fds s1.2 !! s1.1 = Some (new_sock family type 0)) as [E1 Hopen].
    { subst s1. rewrite (posix_socket_ok _ _ _ _ H0). cbn.
      by rewrite lookup_insert_eq. }
    pose proof (lowest_unused_nonneg (fds w)) as Hnn.
    destruct (Z.ltb_spec s1.1 0) as [? | _]; [lia |].
    set (s2 := posix_call (Fcntl s1.1 F_GETFL []) s1.2).
    assert (fds s2.2 = fds s1.2) as Ht2 by apply posix_getfl.
    assert (fault_at s2.2 0 = Some e) as Hf2.
    { subst s2 s1. by rewrite !fault_at_next. }
    rewrite (posix_call_fault _ s2.2 e Hf2) by done. cbn [fst snd].
    destruct (Z.ltb_spec (-1) 0) as [_ | ?]; [| lia].
    rewrite (posix_close_open _ _ (new_sock family type 0))
      by (cbn; by rewrite Ht2).
    cbn. split; [done |]. f_equal.
    unfold fault_at. cbn. rewrite lookup_tail.
    change (mjoin (faults s2.2 !! 1%nat)) with (fault_at s2.2 1).
    subst s2 s1. by rewrite !fault_at_next.
Qed.

Lemma posix_setsockopt_exact fd level optname optval optlen w t s :
  fds w = <[fd := s]> t →
  let rw := posix_call (Setsockopt fd level optname optval optlen) w in
  (rw.1 = 0 ∨ rw.1 = -1)
  ∧ fds rw.2
    = <[fd := Sock (so_domain s) (so_type s) (so_protocol s) (so_flags s)
                   (opts_after rw.1 level optname optval (so_opts s))]> t.
Proof.
  intros Ht. destruct s as [d ty p fl m].
  destruct w as [t0 e [| [e' |] fs]]; cbn in *; subst t0;
    unfold sys_setsockopt; cbn; rewrite ?lookup_insert_eq; cbn;
    unfold opts_after; cbn; (split; [by auto |]);
    by rewrite ?insert_insert_eq.
Qed.

(** The descriptor a successful call leaves, field by field. *)
Lemma create_success_sock family type w :
  let o := create family type w in
  0 ≤ result o →
  ∃ flags r1 r2,
    trace o !! 3%nat
    = Some (Setsockopt (result o) SOL_SOCKET SO_REUSEADDR 1 sizeof_int, r1)
    ∧ trace o !! 4%nat
      = Some (Setsockopt (result o) SOL_SOCKET SO_NOSIGPIPE 1 sizeof_int, r2)
    ∧ (r1 = 0 ∨ r1 = -1) ∧ (r2 = 0 ∨ r2 = -1)
    ∧ fds w !! result o = None
    ∧ fds (final o)
      = <[result o :=
            Sock family type 0 (Z.lor O_NONBLOCK flags)
              (opts_after r2 SOL_SOCKET SO_NOSIGPIPE 1
                 (opts_after r1 SOL_SOCKET SO_REUSEADDR 1 ∅))]> (fds w).
Proof.
  intros o. subst o. unfold create. rewrite create_chain. lazy zeta.
  change (os_call posix) with posix_call.
  change (os_state posix) with world.
  set (s1 := posix_call (Socket family type 0) w).
  destruct (Z.ltb_spec s1.1 0) as [? | Hs1]; [cbn; lia |].
  set (s2 := posix_call (Fcntl s1.1 F_GETFL []) s1.2).
  set (s3 := posix_call (Fcntl s1.1 F_SETFL [Z.lor O_NONBLOCK s2.1]) s2.2).
  destruct (Z.ltb_spec s3.1 0) as [? | Hs3]; [cbn; lia |].
  cbn [result final trace]. intros _.
  pose proof (posix_socket family type 0 w) as Hsock. lazy zeta in Hsock.
  fold s1 in Hsock. destruct Hsock as [[Hf _] | [E1 Ht1]]; [lia |].
  pose proof (lowest_unused_fresh (fds w)) as Hfresh. rewrite <- E1 in Hfresh.
  destruct (posix_getfl s1.1 s1.2) as [Ht2 _]. fold s2 in Ht2.
  pose proof (posix_setfl s1.1 (Z.lor O_NONBLOCK s2.1) s2.2) as Hset.
  lazy zeta in Hset. fold s3 in Hset.
  destruct Hset as [[Hf _] | [_ (s & Hs & Ht3)]]; [lia |].
  rewrite Ht2, Ht1 in Hs, Ht3. rewrite lookup_insert_eq in Hs.
  injection Hs as <-. rewrite insert_insert_eq in Ht3.
  destruct (posix_setsockopt_exact s1.1 SOL_SOCKET SO_REUSEADDR 1 sizeof_int
              _ _ _ Ht3) as [Hr1 Ht4].
  destruct (posix_setsockopt_exact s1.1 SOL_SOCKET SO_NOSIGPIPE 1 sizeof_int
              _ _ _ Ht4) as [Hr2 Ht5].
  cbn in Ht5. eexists s2.1, _, _. repeat split; try done.
Qed.

(** X5. The two options degrade one by one.  On the returned descriptor
    an option is recorded with value 1 when its [setsockopt] call returned
    0, it is absent when that call failed, and nothing else is set. *)
Theorem create_options_recorded family type w r1 r2 :
  let o := create family type w in
  trace o !! 3%nat
  = Some (Setsockopt (result o) SOL_SOCKET SO_REUSEADDR 1 sizeof_int, r1) →
  trace o !! 4%nat
  = Some (Setsockopt (result o) SOL_SOCKET SO_NOSIGPIPE 1 sizeof_int, r2) →
  ∃ s, fds (final o) !! result o = Some s
    ∧ (r1 = 0 → so_opts s !! (SOL_SOCKET, SO_REUSEADDR) = Some 1)
    ∧ (r2 = 0 → so_opts s !! (SOL_SOCKET, SO_NOSIGPIPE) = Some 1)
    ∧ (r1 ≠ 0 → SO_REUSEADDR ≠ SO_NOSIGPIPE →
       so_opts s !! (SOL_SOCKET, SO_REUSEADDR) = None)
    ∧ (r2 ≠ 0 → SO_REUSEADDR ≠ SO_NOSIGPIPE →
       so_opts s !! (SOL_SOCKET, SO_NOSIGPIPE) = None)
    ∧ ∀ k, k ≠ (SOL_SOCKET, SO_REUSEADDR) → k ≠ (SOL_SOCKET, SO_NOSIGPIPE) →
        so_opts s !! k = None.
Proof.
  intros o H3 H4.
  assert (0 ≤ result o) as Hok.
  { pose proof (create_table family type w) as Hp. lazy zeta in Hp.
    fold o in Hp.
    destruct Hp as [(r & _ & _ & Htr & _)
                   | [(fl & res & rc & _ & _ & Htr & _)
                     | (fl & q1 & q2 & s & Hr & _)]];
      [rewrite Htr in H3; done | rewrite Htr in H3; done |].
    rewrite Hr. apply lowest_unused_nonneg. }
  destruct (create_success_sock family type w Hok)
    as (fl & q1 & q2 & H3' & H4' & _ & _ & _ & Hfds).
  fold o in H3', H4', Hfds.
  rewrite H3 in H3'. rewrite H4 in H4'.
  injection H3' as <-. injection H4' as <-.
  eexists. rewrite Hfds, lookup_insert_eq. split; [done |].
  cbn. unfold opts_after.
  repeat split.
  - intros ->. rewrite (decide_True (P := 0 = 0)) by done.
    case_decide; [| by rewrite lookup_insert_eq].
    destruct (decide (SO_NOSIGPIPE = SO_REUSEADDR)) as [-> | Hne];
      [by rewrite lookup_insert_eq |].
    rewrite lookup_insert_ne by congruence. by rewrite lookup_insert_eq.
  - intros ->. rewrite (decide_True (P := 0 = 0)) by done.
    by rewrite lookup_insert_eq.
  - intros Hr1 Hne. rewrite (decide_False (P := r1 = 0)) by done.
    case_decide; [| done]. rewrite lookup_insert_ne by congruence. done.
  - intros Hr2 Hne. rewrite (decide_False (P := r2 = 0)) by done.
    case_decide; [| done]. rewrite lookup_insert_ne by congruence. done.
  - intros k Hk1 Hk2.
    repeat case_decide; rewrite ?lookup_insert_ne by done; done.
Qed.

(** X6. A successful call opens exactly one descriptor more than were open
    before, and that descriptor is a socket of the family and type asked
    for, with protocol 0. *)
Theorem create_success_adds_one family type w :
  let o := create family type w in
  0 ≤ result o →
  size (fds (final o)) = S (size (fds w))
  ∧ ∃ s, fds (final o) !! result o = Some s
      ∧ so_domain s = family ∧ so_type s = type ∧ so_protocol s = 0.
Proof.
  intros o Hok.
  destruct (create_success_sock family type w Hok)
    as (fl & r1 & r2 & _ & _ & _ & _ & Hnew & Hfds).
  fold o in Hnew, Hfds. rewrite Hfds. split.
  - by apply map_size_insert_None.
  - eexists. rewrite lookup_insert_eq. by repeat split.
Qed.

(** X7. The wrapper reads back what the factory wrote: after a successful
    call, [fcntl0(sck, F_GETFL)] on the returned descriptor, when no fault
    hits it, returns flags that contain [O_NONBLOCK], makes that one call
    and changes no descriptor. *)
Theorem create_then_getfl_nonblocking family type w :
  let o := create family type w in
  let o' := exec posix (fcntl0 (result o) F_GETFL) (final o) in
  0 ≤ result o → fault_at (final o) 0 = None →
  Z.land (result o') O_NONBLOCK = O_NONBLOCK
  ∧ trace o' = [(Fcntl (result o) F_GETFL [], result o')]
  ∧ fds (final o') = fds (final o).
Proof.
  intros o o' Hok Hfault.
  pose proof (create_table family type w) as Hp. lazy zeta in Hp. fold o in Hp.
  destruct Hp as [(r' & _ & Hr & _)
                 | [(fl & res & rc & _ & Hr & _)
                   | (fl & r1 & r2 & s & Hr & _ & _ & _ & Hfl & Hfds)]];
    [lia | lia |].
  assert (fds (final o) !! result o = Some s) as Hs
    by (by rewrite Hfds, Hr, lookup_insert_eq).
  subst o'. unfold fcntl0, fcntl. cbn [exec result final trace].
  change (os_call posix) with posix_call.
  rewrite (posix_getfl_ok _ _ s Hfault Hs). cbn [fst snd fds].
  repeat split; try done.
  rewrite Hfl. apply Z.bits_inj'. intros n _.
  rewrite Z.land_spec, Z.lor_spec.
  by destruct (Z.testbit O_NONBLOCK n), (Z.testbit fl n).
Qed.


End MorePosix.

(** ** The further properties at concrete inputs *)

Lemma create_setfl_failure_closes_witness :
  let o := exec (@posix darwin)
             (@BinarySpec_createNonBlockingSocket darwin AF_INET SOCK_STREAM)
             setfl_close_fault in
  trace o !! 2%nat = Some (Fcntl 3 (@F_SETFL darwin) [6], -1)
  ∧ result o = -1
  ∧ drop 3 (trace o) = [(Close 3, -1)].
Proof.
  split; [reflexivity |].
  destruct (@create_setfl_failure_closes darwin (@posix darwin)
              AF_INET SOCK_STREAM setfl_close_fault 3 6 (-1))
    as (Hres & rc & Hclose); [reflexivity | lia |].
  split; [exact Hres | reflexivity].
Defined.

Lemma create_getfl_value_written_witness :
  let o := exec (@posix darwin)
             (@BinarySpec_createNonBlockingSocket darwin AF_INET SOCK_STREAM)
             getfl_fault in
  trace o !! 1%nat = Some (Fcntl 3 (@F_GETFL darwin) [], -1)
  ∧ ∃ res, trace o !! 2%nat = Some (Fcntl 3 (@F_SETFL darwin) [-1], res).
Proof.
  split; [reflexivity |].
  destruct (@create_getfl_value_written darwin (@posix darwin)
              AF_INET SOCK_STREAM getfl_fault 3 (-1))
    as (res & Hset & _); [reflexivity |].
  exists res. exact Hset.
Defined.

Lemma create_errno_at_return_witness :
  fault_at socket_fault 0 = Some EMFILE
  ∧ errno (final (create_inet_stream socket_fault)) = EMFILE
  ∧ fault_at setfl_close_fault 0 = None
  ∧ fault_at setfl_close_fault 2 = Some EBADF
  ∧ result (create_inet_stream setfl_close_fault) = -1
  ∧ errno (final (create_inet_stream setfl_close_fault)) = EINTR.
Proof.
  destruct (@create_errno_at_return darwin AF_INET SOCK_STREAM socket_fault
              EMFILE) as [Hsocket _].
  destruct (@create_errno_at_return darwin AF_INET SOCK_STREAM
              setfl_close_fault EBADF) as [_ Hsetfl].
  split; [reflexivity |]. split; [apply Hsocket; reflexivity |].
  split; [reflexivity |]. split; [reflexivity |].
  apply Hsetfl; reflexivity.
Defined.

Lemma create_options_recorded_witness :
  let o := create_inet_stream (scripted [None; None; None; Some ENOPROTOOPT]) in
  trace o !! 3%nat
  = Some (Setsockopt 3 (@SOL_SOCKET darwin) (@SO_REUSEADDR darwin) 1 4, -1)
  ∧ trace o !! 4%nat
    = Some (Setsockopt 3 (@SOL_SOCKET darwin) (@SO_NOSIGPIPE darwin) 1 4, 0)
  ∧ ∃ s, fds (final o) !! 3 = Some s
      ∧ so_opts s !! (@SOL_SOCKET darwin, @SO_REUSEADDR darwin) = None
      ∧ so_opts s !! (@SOL_SOCKET darwin, @SO_NOSIGPIPE darwin) = Some 1.
Proof.
  split; [reflexivity |]. split; [reflexivity |].
  destruct (@create_options_recorded darwin AF_INET SOCK_STREAM
              (scripted [None; None; None; Some ENOPROTOOPT]) (-1) 0)
    as (s & Hs & _ & Hpipe & Hreuse & _); [reflexivity | reflexivity |].
  exists s. split; [exact Hs |]. split.
  - apply Hreuse; discriminate.
  - apply Hpipe. reflexivity.
Defined.

Lemma create_success_adds_one_witness :
  0 ≤ result (create_inet_stream healthy)
  ∧ size (fds (final (create_inet_stream healthy))) = 4%nat
  ∧ ∃ s, fds (final (create_inet_stream healthy)) !! 3 = Some s
      ∧ so_domain s = AF_INET ∧ so_type s = SOCK_STREAM ∧ so_protocol s = 0.
Proof.
  assert (0 ≤ result (create_inet_stream healthy)) as Hok
    by (vm_compute; discriminate).
  split; [exact Hok |].
  exact (@create_success_adds_one darwin AF_INET SOCK_STREAM healthy Hok).
Defined.

Lemma create_then_getfl_nonblocking_witness :
  let o := create_inet_stream healthy in
  let o' := exec (@posix darwin) (fcntl0 3 (@F_GETFL darwin)) (final o) in
  0 ≤ result o ∧ fault_at (final o) 0 = None
  ∧ result o' = 6
  ∧ Z.land (result o') (@O_NONBLOCK darwin) = @O_NONBLOCK darwin.
Proof.
  intros o o'.
  assert (0 ≤ result o) as Hok by (vm_compute; discriminate).
  split; [exact Hok |]. split; [reflexivity |]. split; [reflexivity |].
  destruct (@create_then_getfl_nonblocking darwin AF_INET SOCK_STREAM healthy
              Hok eq_refl) as (Hnb & _).
  exact Hnb.
Defined.

